(** * SafeRoute: the route scorer of [backend/app.py]

    The scoring endpoint [score_route] receives a JSON body
    [{ "routes": [ [ [lat, lon], ... ], ... ] }], converts every route to a
    two-column array, asks the fitted risk model for one intensity per
    waypoint, amplifies the intensities at or above the 85th percentile by
    1.6 and averages.  A route on which anything raises is scored
    [float("inf")].

    Number model.  Python floats and numpy [float64] values are taken as
    exact rationals ([Qc], canonical fractions, so that equality is
    Leibniz equality): the arithmetic below has no rounding and no
    overflow.  The values a JSON scalar can convert to that are not finite
    ([nan], [inf]) are kept as separate constructors of [float64]; they only
    travel from the request to the model. *)

From Stdlib Require Import List Bool Arith ZArith Lia.
From Stdlib Require Import String.
From Stdlib Require Import QArith Qcanon Qround Lqa.
From Stdlib Require Import Permutation Sorted.
Import ListNotations.

Set Implicit Arguments.
Set Warnings "-register-all".

(** ** Exceptions and the [try] block *)

Module Py.

(** The exceptions the body of the [try] block can raise. *)
Inductive exn : Type :=
| ValueError (msg : string)
| TypeError
| IndexError
| AttributeError
| ModelError.

Inductive result (A : Type) : Type :=
| Ok (a : A)
| Raise (e : exn).

Arguments Ok {A} a.
Arguments Raise {A} e.

Definition bind {A B : Type} (m : result A) (k : A -> result B) : result B :=
  match m with
  | Ok a => k a
  | Raise e => Raise e
  end.

End Py.

Import Py.

Notation "x <- m ;; k" := (bind m (fun x => k))
  (at level 61, m at next level, right associativity).

(** ** Arithmetic on prediction vectors (numpy) *)

Module Np.

Local Open Scope Qc_scope.

Definition of_Z (z : Z) : Qc := Q2Qc (inject_Z z).
Definition of_nat (n : nat) : Qc := of_Z (Z.of_nat n).

(** [x <= y] on floats, as a boolean. *)
Definition leb (x y : Qc) : bool := Qle_bool x y.

(** [np.floor], as an integer index. *)
Definition floor (x : Qc) : Z := Qfloor x.

(** Ascending order of the values ([arr.partition] is only observed
    through the order statistics it puts in place). *)
Fixpoint insert (x : Qc) (l : list Qc) : list Qc :=
  match l with
  | [] => [x]
  | y :: l' => if leb x y then x :: y :: l' else y :: insert x l'
  end.

Fixpoint sort (l : list Qc) : list Qc :=
  match l with
  | [] => []
  | x :: l' => insert x (sort l')
  end.

(** [arr[i]] with Python's negative indices. *)
Definition item (arr : list Qc) (i : Z) : Qc :=
  let n := Z.of_nat (List.length arr) in
  nth (Z.to_nat (if (i <? 0)%Z then n + i else i)%Z) arr 0.

(** [_lerp(a, b, t)]: [a + (b - a) * t], replaced by
    [b - (b - a) * (1 - t)] where [t >= 0.5]. *)
Definition lerp (a b t : Qc) : Qc :=
  let diff_b_a := b - a in
  if leb (Q2Qc 0.5) t then b - diff_b_a * (1 - t) else a + diff_b_a * t.

(** [_get_indexes]: the ranks on both sides of the virtual index, with
    the index at or above the last rank sent to [-1] (the maximum) and a
    negative one to [0]. *)
Definition get_indexes (virtual_index : Qc) (values_count : nat) : Z * Z :=
  let previous_index := floor virtual_index in
  let next_index := (previous_index + 1)%Z in
  if leb (of_nat values_count - 1) virtual_index then ((-1)%Z, (-1)%Z)
  else if negb (leb 0 virtual_index) then (0%Z, 0%Z)
  else (previous_index, next_index).

(** The virtual index of the [linear] method. *)
Definition get_virtual_index (n : nat) (quantile : Qc) : Qc :=
  (of_nat n - 1) * quantile.

(** [np.percentile(a, q)] with the default method, [linear]: the virtual
    index is [(n - 1) * (q / 100)]; the result interpolates between the
    order statistics at its floor and at the next rank.  An empty input
    raises [IndexError]. *)
Definition percentile (a : list Qc) (q : Qc) : result Qc :=
  match a with
  | [] => Raise IndexError
  | _ :: _ =>
      let values_count := List.length a in
      let quantile := q / of_Z 100 in
      let virtual_index := get_virtual_index values_count quantile in
      let '(previous_index, next_index) :=
        get_indexes virtual_index values_count in
      let arr := sort a in
      let previous := item arr previous_index in
      let next := item arr next_index in
      let gamma := virtual_index - of_Z previous_index in
      Ok (lerp previous next gamma)
  end.

(** [np.where(preds >= p, preds * f, preds)]. *)
Definition where_ge (preds : list Qc) (p f : Qc) : list Qc :=
  map (fun x => if leb p x then x * f else x) preds.

Definition sum (l : list Qc) : Qc := fold_right Qcplus 0 l.

(** [np.mean]. *)
Definition mean (l : list Qc) : Qc := sum l / of_nat (List.length l).

End Np.

Import Np.

(** ** Request values *)

(** What a JSON scalar becomes under [dtype=float]. *)
Inductive float64 : Type :=
| Fin (x : Qc)
| NaN
| Inf (negative : bool).

(** The value [request.get_json(silent=True)] returns; [None] is [JNull].
    An object keeps its members in document order. *)
Inductive json : Type :=
| JNull
| JBool (b : bool)
| JNum (x : float64)
| JStr (s : string)
| JList (items : list json)
| JObj (members : list (string * json)).

(** Python's truth value, as tested by [not data] and [not routes]. *)
Definition truthy (v : json) : bool :=
  match v with
  | JNull => false
  | JBool b => b
  | JNum (Fin x) => negb (Qeq_bool x 0)
  | JNum _ => true
  | JStr s => negb (String.eqb s EmptyString)
  | JList items => negb (Nat.eqb (List.length items) 0)
  | JObj members => negb (Nat.eqb (List.length members) 0)
  end.

(** [isinstance(v, list)]. *)
Definition is_list (v : json) : bool :=
  match v with
  | JList _ => true
  | _ => false
  end.

(** Lookup in a decoded object: of two members with one name the later
    one is kept. *)
Fixpoint lookup (key : string) (members : list (string * json)) : option json :=
  match members with
  | [] => None
  | (k, v) :: rest =>
      match lookup key rest with
      | Some v' => Some v'
      | None => if String.eqb k key then Some v else None
      end
  end.

(** [data.get(key)]: [None] for an absent member; only a [dict] has the
    method. *)
Definition get (data : json) (key : string) : result json :=
  match data with
  | JObj members =>
      match lookup key members with
      | Some v => Ok v
      | None => Ok JNull
      end
  | _ => Raise AttributeError
  end.

(** ** [np.array(route, dtype=float)] *)

Record ndarray : Type := mk_ndarray {
  shape : list nat;
  data : list float64
}.

Definition ndim (arr : ndarray) : nat := List.length (shape arr).

Definition mapM {A B : Type} (f : A -> result B) : list A -> result (list B) :=
  fix go (l : list A) : result (list B) :=
    match l with
    | [] => Ok []
    | a :: l' => b <- f a;; bs <- go l';; Ok (b :: bs)
    end.

Definition shape_eqb (s1 s2 : list nat) : bool :=
  if list_eq_dec Nat.eq_dec s1 s2 then true else false.

(** Shape discovery: a list whose items have one common shape adds a
    dimension; items of different shapes are refused. *)
Fixpoint discover_shape (obj : json) : result (list nat) :=
  match obj with
  | JList items =>
      match map discover_shape items with
      | [] => Ok [0%nat]
      | Raise e :: _ => Raise e
      | Ok s :: rest =>
          if forallb (fun r => match r with
                               | Ok s' => shape_eqb s' s
                               | Raise _ => false
                               end) rest
          then Ok (List.length items :: s)
          else Raise (ValueError "inhomogeneous shape")
      end
  | _ => Ok []
  end.

(** The scalars of a nested list, in row-major order. *)
Fixpoint flatten (obj : json) : list json :=
  match obj with
  | JList items => flat_map flatten items
  | _ => [obj]
  end.

(** ** What the view returns *)

(** A score as returned: a float, or [float("inf")]. *)
Inductive score : Type :=
| Finite (x : Qc)
| PosInf.

(** The JSON payloads the view builds with [jsonify]. *)
Inductive payload : Type :=
| ScoresBody (scores : list score)
| ErrorBody (error : string).

(** A reply with its status code, or an exception that leaves the view. *)
Inductive response : Type :=
| Reply (body : payload) (status : nat)
| Unhandled (e : exn).

(** [scores] as appended to so far, and the exceptions printed. *)
Record loop_state : Type := mk_state {
  scores : list score;
  printed : list exn
}.

(** What the view takes from outside this file. *)
Class Env : Type := {
  (** How a string converts to a float; [None] when it does not. *)
  float_of_str : string -> option float64;
  (** The fitted model of [model.joblib]: [model.predict(arr)]. *)
  model_predict : ndarray -> result (list Qc)
}.

Section Scorer.

Context {env : Env}.

(** One scalar under [dtype=float]. *)
Definition to_float (v : json) : result float64 :=
  match v with
  | JNull => Ok NaN
  | JBool b => Ok (Fin (if b then 1 else 0)%Qc)
  | JNum x => Ok x
  | JStr s =>
      match float_of_str s with
      | Some x => Ok x
      | None => Raise (ValueError "could not convert string to float")
      end
  | JList _ => Raise (ValueError "setting an array element with a sequence")
  | JObj _ => Raise TypeError
  end.

Definition np_array (obj : json) : result ndarray :=
  shp <- discover_shape obj;;
  values <- mapM to_float (flatten obj);;
  Ok (mk_ndarray shp values).

(** ** The body of the [try] block *)

Definition PERCENTILE : Qc := of_Z 85.
Definition FACTOR : Qc := Q2Qc 1.6.

Definition try_body (route : json) : result Qc :=
  arr <- np_array route;;
  if negb (ndim arr =? 2)%nat || negb (nth 1 (shape arr) 0 =? 2)%nat
  then Raise (ValueError "Route should be list of [lat, lon] pairs")
  else
    preds <- model_predict arr;;
    p85 <- percentile preds PERCENTILE;;
    let penalized := where_ge preds p85 FACTOR in
    let route_score := mean penalized in
    Ok route_score.

(** ** The loop over the routes *)

Definition loop_body (st : loop_state) (route : json) : loop_state :=
  match try_body route with
  | Ok route_score =>
      mk_state (scores st ++ [Finite route_score]) (printed st)
  | Raise e =>
      mk_state (scores st ++ [PosInf]) (printed st ++ [e])
  end.

Definition score_loop (routes : list json) : loop_state :=
  fold_left loop_body routes (mk_state [] []).

(** The score one iteration appends for [route]. *)
Definition route_score (route : json) : score :=
  match try_body route with
  | Ok x => Finite x
  | Raise _ => PosInf
  end.

(** ** The view function *)

Definition score_route (data : json) : response :=
  if negb (truthy data) then Reply (ErrorBody "Invalid JSON") 400
  else
    match get data "routes" with
    | Raise e => Unhandled e
    | Ok routes =>
        if negb (truthy routes) || negb (is_list routes)
        then Reply (ErrorBody "Missing 'routes' list") 400
        else
          match routes with
          | JList items => Reply (ScoresBody (scores (score_loop items))) 200
          | _ => Reply (ErrorBody "Missing 'routes' list") 400
          end
    end.

(** A route is convertible when it is a non-empty list of two-item lists
    of scalars that each convert to a float: the routes for which the
    [try] block reaches [model.predict]. *)
Definition is_scalar (v : json) : bool :=
  match v with
  | JList _ => false
  | _ => true
  end.

Definition converts (v : json) : bool :=
  match to_float v with
  | Ok _ => true
  | Raise _ => false
  end.

Definition is_point (p : json) : bool :=
  match p with
  | JList [lat; lon] =>
      is_scalar lat && is_scalar lon && converts lat && converts lon
  | _ => false
  end.

Definition convertible (route : json) : bool :=
  match route with
  | JList (p :: ps) => forallb is_point (p :: ps)
  | _ => false
  end.

End Scorer.

(** ** Well-formed routes and their arrays *)

(** The route [[lat, lon], ...] of a list of coordinates. *)
Definition point_json (c : float64 * float64) : json :=
  JList [JNum (fst c); JNum (snd c)].

Definition route_json (coords : list (float64 * float64)) : json :=
  JList (map point_json coords).

(** The [(N, 2)] array of a list of coordinates, row by row. *)
Definition array_of (coords : list (float64 * float64)) : ndarray :=
  mk_ndarray [List.length coords; 2%nat]
             (flat_map (fun c => [fst c; snd c]) coords).

(** ** The scoring rule in the words of the specification *)

Module Spec.

Local Open Scope Qc_scope.

(** 85th percentile by linear interpolation between the closest ranks:
    with [h = (n - 1) * 0.85], between the order statistics at the floor
    and at the ceiling of [h]. *)
Definition percentile85 (P : list Qc) : Qc :=
  let sorted := sort P in
  let h := (of_nat (List.length P) - 1) * Q2Qc 0.85 in
  let lower := nth (Z.to_nat (Qfloor h)) sorted 0 in
  let upper := nth (Z.to_nat (Qceiling h)) sorted 0 in
  lower + (h - of_Z (Qfloor h)) * (upper - lower).

(** Each value at or above the threshold times 1.6, the others
    unchanged. *)
Definition penalized (P : list Qc) : list Qc :=
  let threshold := percentile85 P in
  map (fun v => if leb threshold v then v * Q2Qc 1.6 else v) P.

Definition arithmetic_mean (l : list Qc) : Qc :=
  fold_right Qcplus 0 l / of_nat (List.length l).

Definition route_score (P : list Qc) : Qc :=
  arithmetic_mean (penalized P).

(** A malformed route: empty, or with a point that is not a pair
    (ragged, other arity), or with a value that is not a number. *)
Definition non_numeric (v : json) : bool :=
  match v with
  | JNum _ => false
  | _ => true
  end.

Definition bad_point (p : json) : bool :=
  match p with
  | JList [lat; lon] => non_numeric lat || non_numeric lon
  | _ => true
  end.

Definition malformed (route : json) : bool :=
  match route with
  | JList [] => true
  | JList points => existsb bad_point points
  | _ => true
  end.

End Spec.

(** ** Stand-ins for the model and for string conversion *)

Module Samples.

Local Open Scope Qc_scope.

(** A model that answers a fixed prediction vector. *)
Definition fixed_model (P : list Qc) : ndarray -> result (list Qc) :=
  fun _ => Ok P.

(** The rows of a two-column array. *)
Fixpoint rows (values : list float64) : list (float64 * float64) :=
  match values with
  | lat :: lon :: rest => (lat, lon) :: rows rest
  | _ => []
  end.

(** A model that predicts each row on its own. *)
Definition pointwise_model (f : float64 * float64 -> Qc)
  : ndarray -> result (list Qc) :=
  fun arr => Ok (map f (rows (data arr))).

(** Intensity of a point: its latitude when finite. *)
Definition latitude (c : float64 * float64) : Qc :=
  match fst c with
  | Fin x => x
  | _ => 0
  end.

(** No string converts. *)
Definition no_strings : string -> option float64 := fun _ => None.

(** Strings of decimal digits convert to the number they spell. *)
Definition digit_value (c : Ascii.ascii) : option Z :=
  let n := Ascii.nat_of_ascii c in
  if ((48 <=? n) && (n <=? 57))%nat then Some (Z.of_nat (n - 48)) else None.

Fixpoint digits_value (acc : Z) (s : string) : option Z :=
  match s with
  | EmptyString => Some acc
  | String c s' =>
      match digit_value c with
      | Some d => digits_value (10 * acc + d)%Z s'
      | None => None
      end
  end.

Definition digit_strings (s : string) : option float64 :=
  match s with
  | EmptyString => None
  | _ =>
      match digits_value 0 s with
      | Some z => Some (Fin (of_Z z))
      | None => None
      end
  end.

(** A fixed prediction vector, no string converts. *)
Definition fixed_env (P : list Qc) : Env :=
  {| float_of_str := no_strings; model_predict := fixed_model P |}.

(** Every point predicted by its latitude, digit strings convert. *)
Definition latitude_env : Env :=
  {| float_of_str := digit_strings;
     model_predict := pointwise_model latitude |}.

Definition q (z : Z) : Qc := of_Z z.

Definition at_ (lat lon : Z) : float64 * float64 :=
  (Fin (of_Z lat), Fin (of_Z lon)).

End Samples.

(** ** The training script, up to the call of [pipeline.fit] *)

Module Train.

Local Open Scope Qc_scope.

(** What stops the script. *)
Inductive error : Type :=
| FileNotFoundError
| KeyError_column (c : string) (found : list string)
| KeyError_target.

Inductive outcome (A : Type) : Type :=
| Done (a : A)
| Stopped (e : error).

Arguments Done {A} a.
Arguments Stopped {A} e.

(** A cell of the frame [pd.read_csv] returns: a number, or [None] for a
    missing value (NaN). *)
Definition cell : Type := option Qc.

(** A row gives a cell for every column. *)
Definition row : Type := string -> cell.

Record frame : Type := mk_frame {
  columns : list string;
  rows : list row
}.

(** The names a crime column may have, in lower case. *)
Definition CRIME_NAMES : list string :=
  ["murder"; "rape"; "robbery"; "theft"; "assualt murders";
   "sexual harassement"; "gangrape"]%string.

Definition lower_ascii (c : Ascii.ascii) : Ascii.ascii :=
  let n := Ascii.nat_of_ascii c in
  if ((65 <=? n) && (n <=? 90))%nat then Ascii.ascii_of_nat (n + 32) else c.

(** [s.lower()]. *)
Fixpoint lower (s : string) : string :=
  match s with
  | EmptyString => EmptyString
  | String c s' => String (lower_ascii c) (lower s')
  end.

(** [c in names]. *)
Definition isin (c : string) (names : list string) : bool :=
  existsb (String.eqb c) names.

(** [df[cols].sum(axis=1)] in one row: missing values are skipped. *)
Definition row_sum (cols : list string) (r : row) : Qc :=
  fold_right (fun c acc => match r c with
                           | Some v => v + acc
                           | None => acc
                           end) 0 cols.

(** [df[name] = values], the values given row by row. *)
Definition assign (df : frame) (name : string) (value : row -> cell) : frame :=
  mk_frame (if isin name (columns df) then columns df
            else columns df ++ [name])
           (map (fun (r : row) (c : string) =>
                   if String.eqb c name then value r else r c) (rows df)).

Definition notna (subset : list string) (r : row) : bool :=
  forallb (fun c => match r c with
                    | Some _ => true
                    | None => false
                    end) subset.

(** [df.dropna(subset=...).reset_index(drop=True)]. *)
Definition dropna (subset : list string) (df : frame) : frame :=
  mk_frame (columns df) (filter (notna subset) (rows df)).

(** The script from the test of the CSV path to the arguments of
    [pipeline.fit(X, y)]; [csv] is [None] when the file does not exist. *)
Definition main (csv : option frame)
  : outcome (list (cell * cell) * list cell) :=
  match csv with
  | None => Stopped FileNotFoundError
  | Some df =>
      if negb (isin "lat" (columns df))
      then Stopped (KeyError_column "lat" (columns df))
      else if negb (isin "long" (columns df))
      then Stopped (KeyError_column "long" (columns df))
      else
        let target := "totalcrime"%string in
        let with_target :=
          if isin "totalcrime" (columns df) then Done df
          else
            let crime_cols :=
              filter (fun c => isin (lower c) CRIME_NAMES) (columns df) in
            match crime_cols with
            | [] => Stopped KeyError_target
            | _ :: _ =>
                Done (assign df "totalcrime"
                             (fun r => Some (row_sum crime_cols r)))
            end in
        match with_target with
        | Stopped e => Stopped e
        | Done df1 =>
            let df2 := dropna ["lat"; "long"; target]%string df1 in
            let X := map (fun r : row => (r "lat"%string, r "long"%string))
                         (rows df2) in
            let y := map (fun r : row => r target) (rows df2) in
            Done (X, y)
        end
  end.

End Train.

(** ** Stand-ins for a failing model and for a CSV file *)

Module MoreSamples.

Local Open Scope Qc_scope.

(** A model that raises on every input. *)
Definition failing_env : Env :=
  {| float_of_str := Samples.no_strings;
     model_predict := fun _ => Raise ModelError |}.

(** A row from its cells, by column name. *)
Fixpoint row_of (cells : list (string * Train.cell)) : Train.row :=
  fun c =>
    match cells with
    | [] => None
    | (name, v) :: rest => if String.eqb c name then v else row_of rest c
    end.

Definition num (z : Z) : Train.cell := Some (of_Z z).

(** A file with a [totalcrime] column; the second row lacks it. *)
Definition with_total : Train.frame :=
  Train.mk_frame
    ["lat"; "long"; "totalcrime"; "murder"]%string
    [row_of [("lat", num 1); ("long", num 2); ("totalcrime", num 7);
             ("murder", num 3)]%string;
     row_of [("lat", num 3); ("long", num 4); ("totalcrime", None);
             ("murder", num 1)]%string].

(** The same file with other murder counts. *)
Definition with_total' : Train.frame :=
  Train.mk_frame
    ["lat"; "long"; "totalcrime"; "murder"]%string
    [row_of [("lat", num 1); ("long", num 2); ("totalcrime", num 7);
             ("murder", num 9)]%string;
     row_of [("lat", num 3); ("long", num 4); ("totalcrime", None);
             ("murder", None)]%string].

(** A file without [totalcrime]; the second row lacks a count, the third
    a coordinate. *)
Definition without_total : Train.frame :=
  Train.mk_frame
    ["lat"; "long"; "Murder"; "theft"]%string
    [row_of [("lat", num 1); ("long", num 2); ("Murder", num 3);
             ("theft", num 4)]%string;
     row_of [("lat", num 3); ("long", num 4); ("Murder", None);
             ("theft", num 5)]%string;
     row_of [("lat", None); ("long", num 6); ("Murder", num 1);
             ("theft", num 1)]%string].

End MoreSamples.

(** * Properties *)

(** ** Order and arithmetic on [Qc] *)

Section NpFacts.

Local Open Scope Qc_scope.

Lemma leb_le (x y : Qc) : leb x y = true <-> x <= y.
Proof. unfold leb, Qcle. apply Qle_bool_iff. Qed.

Lemma leb_gt (x y : Qc) : leb x y = false <-> y < x.
Proof.
  split; intro H.
  - apply Qcnot_le_lt. intro Hle. apply leb_le in Hle. congruence.
  - destruct (leb x y) eqn:E; [|reflexivity].
    apply leb_le in E. exfalso. exact (Qclt_not_le _ _ H E).
Qed.

Lemma leb_refl (x : Qc) : leb x x = true.
Proof. apply leb_le, Qcle_refl. Qed.

Lemma leb_total (x y : Qc) : leb x y = false -> leb y x = true.
Proof. intro H. apply leb_le, Qclt_le_weak, leb_gt, H. Qed.

(** *** Sorting *)

Lemma insert_perm (x : Qc) (l : list Qc) : Permutation (x :: l) (insert x l).
Proof.
  induction l as [|y l IH]; simpl; [reflexivity|].
  destruct (leb x y); [reflexivity|].
  rewrite perm_swap. now apply perm_skip.
Qed.

Lemma sort_perm (l : list Qc) : Permutation l (sort l).
Proof.
  induction l as [|x l IH]; simpl; [reflexivity|].
  rewrite <- insert_perm. now apply perm_skip.
Qed.

Lemma sort_length (l : list Qc) : List.length (sort l) = List.length l.
Proof. symmetry. apply Permutation_length, sort_perm. Qed.

Lemma insert_sorted (x : Qc) (l : list Qc) :
  StronglySorted Qcle l -> StronglySorted Qcle (insert x l).
Proof.
  induction 1 as [|y l Hs IH Hy]; simpl.
  - repeat constructor.
  - destruct (leb x y) eqn:E.
    + apply leb_le in E. constructor; [now constructor|].
      constructor; [exact E|].
      eapply Forall_impl; [|exact Hy].
      intros z Hz. eapply Qcle_trans; eauto.
    + apply leb_total, leb_le in E. constructor; [exact IH|].
      eapply Permutation_Forall; [apply insert_perm|].
      now constructor.
Qed.

Lemma sort_sorted (l : list Qc) : StronglySorted Qcle (sort l).
Proof.
  induction l as [|x l IH]; simpl; [constructor|].
  now apply insert_sorted.
Qed.

Lemma sorted_perm_eq (l1 l2 : list Qc) :
  StronglySorted Qcle l1 -> StronglySorted Qcle l2 ->
  Permutation l1 l2 -> l1 = l2.
Proof.
  intros H1; revert l2.
  induction H1 as [|x l1 Hs1 IH Hx]; intros l2 H2 Hp.
  - apply Permutation_nil in Hp. now subst.
  - destruct H2 as [|y l2 Hs2 Hy].
    + apply Permutation_sym, Permutation_nil in Hp. discriminate.
    + assert (x = y) as ->.
      { assert (In x (y :: l2)) as Hin1
          by (eapply Permutation_in; [exact Hp|now left]).
        assert (In y (x :: l1)) as Hin2
          by (eapply Permutation_in;
              [apply Permutation_sym; exact Hp|now left]).
        destruct Hin1 as [->|Hin1]; [reflexivity|].
        destruct Hin2 as [->|Hin2]; [reflexivity|].
        rewrite Forall_forall in Hx, Hy.
        apply Qcle_antisym; auto. }
      f_equal. apply IH; [exact Hs2|].
      eapply Permutation_cons_inv; exact Hp.
Qed.

Lemma sort_permutation (l1 l2 : list Qc) :
  Permutation l1 l2 -> sort l1 = sort l2.
Proof.
  intro Hp. apply sorted_perm_eq; try apply sort_sorted.
  rewrite <- (sort_perm l1), <- (sort_perm l2). exact Hp.
Qed.

End NpFacts.

Ltac qc_to_q :=
  unfold of_nat, of_Z, Qcdiv, Qcminus;
  unfold Qcmult, Qcplus, Qcopp, Qcinv, Q2Qc; cbn [this];
  rewrite ?Qred_correct.

(** ** The 85th percentile *)

Section PercentileFacts.

Local Open Scope Qc_scope.

Lemma lerp_eq (a b t : Qc) : lerp a b t = a + (b - a) * t.
Proof. unfold lerp. destruct (leb _ t); ring. Qed.

Lemma quantile_85 : PERCENTILE / of_Z 100 = Q2Qc 0.85.
Proof. apply Qc_is_canon. reflexivity. Qed.

(** The virtual index of the 85th percentile of [S m] values. *)
Local Abbreviation h m := (get_virtual_index (S m) (PERCENTILE / of_Z 100)).

Lemma this_virtual (m : nat) :
  (this (h m) == inject_Z (Z.of_nat m) * (17 # 20))%Q.
Proof.
  unfold get_virtual_index, PERCENTILE. qc_to_q.
  rewrite Nat2Z.inj_succ. unfold Z.succ. rewrite inject_Z_plus. field.
Qed.

Lemma floor_virtual (m : nat) : floor (h m) = (Z.of_nat m * 17 / 20)%Z.
Proof.
  unfold floor. rewrite (Qfloor_comp _ _ (this_virtual m)). reflexivity.
Qed.

Lemma ceiling_virtual (m : nat) :
  Qceiling (h m) = (- (- (Z.of_nat m * 17) / 20))%Z.
Proof.
  rewrite (Qceiling_comp _ _ (this_virtual m)). reflexivity.
Qed.

Lemma virtual_nonneg (m : nat) : leb 0 (h m) = true.
Proof.
  apply leb_le. unfold Qcle. rewrite this_virtual. cbn [this Q2Qc].
  assert (0 <= inject_Z (Z.of_nat m))%Q
    by (rewrite <- (Zle_Qle 0); lia).
  change (Qred 0) with 0%Q. lra.
Qed.

Lemma virtual_last (m : nat) :
  leb (of_nat (S m) - 1) (h m) = (m =? 0)%nat.
Proof.
  assert (this (of_nat (S m) - 1) == inject_Z (Z.of_nat m))%Q as E.
  { qc_to_q. rewrite Nat2Z.inj_succ. unfold Z.succ.
    rewrite inject_Z_plus. ring. }
  destruct m as [|m]; cbn [Nat.eqb].
  - apply leb_le. unfold Qcle. rewrite E, this_virtual.
    assert (inject_Z (Z.of_nat 0) == 0)%Q by reflexivity. lra.
  - apply leb_gt. unfold Qclt. rewrite E, this_virtual.
    assert (0 < inject_Z (Z.of_nat (S m)))%Q
      by (rewrite <- (Zlt_Qlt 0); lia).
    lra.
Qed.

Lemma virtual_exact (m : nat) :
  (Z.of_nat m * 17 mod 20 = 0)%Z -> h m = of_Z (floor (h m)).
Proof.
  intro Hm. apply Qc_is_canon. rewrite floor_virtual, this_virtual.
  unfold of_Z, Q2Qc. cbn [this]. rewrite Qred_correct.
  unfold Qeq, inject_Z, Qmult. cbn [Qnum Qden].
  pose proof (Z.div_mod (Z.of_nat m * 17) 20). lia.
Qed.

Lemma ceiling_floor (m : nat) :
  (Z.of_nat m * 17 mod 20 = 0 /\ Qceiling (h m) = floor (h m))%Z \/
  (Qceiling (h m) = floor (h m) + 1)%Z.
Proof.
  rewrite ceiling_virtual, floor_virtual.
  destruct (Z.eq_dec (Z.of_nat m * 17 mod 20) 0) as [E|E]; [left|right];
    revert E; Z.div_mod_to_equations; lia.
Qed.

Lemma floor_range (m : nat) : (0 <= floor (h m) <= Z.of_nat m)%Z.
Proof. rewrite floor_virtual. Z.div_mod_to_equations. lia. Qed.

Lemma ceiling_range (m : nat) : (0 <= Qceiling (h m) <= Z.of_nat m)%Z.
Proof. rewrite ceiling_virtual. Z.div_mod_to_equations. lia. Qed.

Lemma item_nonneg (arr : list Qc) (i : Z) :
  (0 <= i)%Z -> item arr i = nth (Z.to_nat i) arr 0.
Proof.
  intro Hi. unfold item.
  destruct (i <? 0)%Z eqn:E; [apply Z.ltb_lt in E; lia|reflexivity].
Qed.

(** [np.percentile(., 85)] is the interpolation between the closest
    ranks. *)
Lemma percentile_spec (a : list Qc) :
  a <> [] -> percentile a PERCENTILE = Ok (Spec.percentile85 a).
Proof.
  destruct a as [|x a']; [congruence|intros _].
  unfold percentile, Spec.percentile85. rewrite <- quantile_85.
  change ((of_nat (List.length (x :: a')) - 1) * (PERCENTILE / of_Z 100))
    with (h (List.length a')).
  cbn [List.length].
  set (m := List.length a'). set (s := sort (x :: a')).
  assert (List.length s = S m) as Hs by (unfold s; apply sort_length).
  unfold get_indexes. rewrite virtual_last, virtual_nonneg. cbn [negb].
  pose proof (floor_range m) as Hf. unfold floor in *.
  destruct m as [|m]; cbn [Nat.eqb].
  - replace (Qceiling (h 0)) with 0%Z
      by (rewrite ceiling_virtual; reflexivity).
    replace (Qfloor (h 0)) with 0%Z
      by (symmetry; apply (floor_virtual 0)).
    unfold item. rewrite Hs. cbn [Z.ltb Z.compare Z.of_nat].
    rewrite lerp_eq. f_equal. simpl Z.to_nat. ring.
  - rewrite !item_nonneg by lia. rewrite lerp_eq. f_equal.
    destruct (ceiling_floor (S m)) as [[Hr Hc]|Hc]; unfold floor in Hc;
      rewrite Hc.
    + assert (h (S m) - of_Z (Qfloor (h (S m))) = 0) as ->
        by (rewrite (@virtual_exact (S m) Hr) at 1; unfold floor; ring).
      ring.
    + ring.
Qed.

End PercentileFacts.

(** ** Sums, means and constant vectors *)

Section MeanFacts.

Local Open Scope Qc_scope.

Lemma of_nat_S (n : nat) : of_nat (S n) = of_nat n + 1.
Proof.
  apply Qc_is_canon. qc_to_q.
  rewrite Nat2Z.inj_succ. unfold Z.succ. rewrite inject_Z_plus. reflexivity.
Qed.

Lemma of_nat_0 : of_nat 0 = 0.
Proof. apply Qc_is_canon. reflexivity. Qed.

Lemma of_nat_nonneg (n : nat) : 0 <= of_nat n.
Proof.
  unfold Qcle. qc_to_q. change (Qred 0) with 0%Q.
  rewrite <- (Zle_Qle 0). lia.
Qed.

Lemma of_nat_pos (n : nat) : 0 < of_nat (S n).
Proof.
  unfold Qclt. qc_to_q. change (Qred 0) with 0%Q.
  rewrite <- (Zlt_Qlt 0). lia.
Qed.

Lemma of_nat_neq_0 (n : nat) : of_nat (S n) <> 0.
Proof.
  intro H. pose proof (of_nat_pos n) as Hp. rewrite H in Hp.
  exact (Qclt_not_le _ _ Hp (Qcle_refl 0)).
Qed.

Lemma sum_nil : sum [] = 0.
Proof. reflexivity. Qed.

Lemma sum_cons (x : Qc) (l : list Qc) : sum (x :: l) = x + sum l.
Proof. reflexivity. Qed.

Lemma sum_perm (l1 l2 : list Qc) : Permutation l1 l2 -> sum l1 = sum l2.
Proof.
  induction 1 as [|x l1 l2 _ IH|x y l|l1 l2 l3 _ IH1 _ IH2];
    rewrite ?sum_cons.
  - reflexivity.
  - now rewrite IH.
  - ring.
  - congruence.
Qed.

Lemma sum_repeat (x : Qc) (n : nat) : sum (repeat x n) = of_nat n * x.
Proof.
  induction n as [|n IH]; cbn [repeat]; rewrite ?sum_cons.
  - rewrite sum_nil, of_nat_0. ring.
  - rewrite IH, of_nat_S. ring.
Qed.

Lemma mean_repeat (x : Qc) (n : nat) : mean (repeat x (S n)) = x.
Proof.
  unfold mean. rewrite sum_repeat, repeat_length.
  field. apply of_nat_neq_0.
Qed.

Lemma insert_repeat (x : Qc) (n : nat) :
  insert x (repeat x n) = repeat x (S n).
Proof. destruct n; cbn [repeat insert]; [|rewrite leb_refl]; reflexivity. Qed.

Lemma sort_repeat (x : Qc) (n : nat) : sort (repeat x n) = repeat x n.
Proof.
  induction n as [|n IH]; cbn [repeat sort]; [reflexivity|].
  now rewrite IH, insert_repeat.
Qed.

(** Between equal values the interpolation is that value. *)
Lemma percentile85_repeat (x : Qc) (n : nat) :
  Spec.percentile85 (repeat x (S n)) = x.
Proof.
  unfold Spec.percentile85. rewrite sort_repeat, repeat_length.
  rewrite <- quantile_85.
  change ((of_nat (S n) - 1) * (PERCENTILE / of_Z 100))
    with (get_virtual_index (S n) (PERCENTILE / of_Z 100)).
  pose proof (floor_range n) as Hf. pose proof (ceiling_range n) as Hc.
  unfold floor in Hf.
  rewrite !nth_repeat_lt by lia. ring.
Qed.

Lemma where_ge_repeat (x f : Qc) (n : nat) :
  where_ge (repeat x n) x f = repeat (x * f) n.
Proof. unfold where_ge. rewrite map_repeat, leb_refl. reflexivity. Qed.

(** Amplification of non-negative values by a factor of at least one. *)
Lemma where_ge_bounds (p f : Qc) (l : list Qc) :
  1 <= f -> Forall (fun v => 0 <= v) l ->
  sum l <= sum (where_ge l p f) /\ sum (where_ge l p f) <= f * sum l.
Proof.
  intros Hf. induction 1 as [|x l Hx _ [IH1 IH2]].
  - split; [apply Qcle_refl|]. cbn [where_ge map].
    replace (f * sum []) with (sum []) by (rewrite sum_nil; ring).
    apply Qcle_refl.
  - change (where_ge (x :: l) p f)
      with ((if leb p x then x * f else x) :: where_ge l p f).
    rewrite !sum_cons.
    assert (x <= x * f) as Hxf.
    { replace x with (x * 1) at 1 by ring.
      rewrite (Qcmult_comm x 1), (Qcmult_comm x f).
      apply Qcmult_le_compat_r; assumption. }
    replace (f * (x + sum l)) with (x * f + f * sum l) by ring.
    destruct (leb p x); split; apply Qcplus_le_compat;
      auto using Qcle_refl.
Qed.

End MeanFacts.

(** ** Conversion, the [try] block and the loop *)

Section ScorerFacts.

Context {env : Env}.

Local Open Scope Qc_scope.

(** *** Conversion of a list of coordinate pairs *)

Lemma discover_shape_route (coords : list (float64 * float64)) :
  coords <> [] ->
  discover_shape (route_json coords) = Ok [List.length coords; 2%nat].
Proof.
  destruct coords as [|c coords]; [congruence|intros _].
  unfold route_json. cbn [discover_shape map].
  change (discover_shape (point_json c)) with (Ok (A:=list nat) [2%nat]).
  cbv iota. cbn [List.length]. rewrite length_map.
  match goal with |- context [forallb ?f ?l] =>
    replace (forallb f l) with true; [reflexivity|] end.
  symmetry. apply forallb_forall. intros r Hr.
  apply in_map_iff in Hr as [p [<- Hp]].
  apply in_map_iff in Hp as [c' [<- _]]. reflexivity.
Qed.

Lemma flatten_route (coords : list (float64 * float64)) :
  mapM to_float (flatten (route_json coords))
  = Ok (flat_map (fun c => [fst c; snd c]) coords).
Proof.
  unfold route_json. cbn [flatten].
  induction coords as [|c coords IH]; [reflexivity|].
  cbn [map flat_map]. cbn [point_json flatten flat_map app mapM to_float bind].
  cbn in IH |- *. rewrite IH. reflexivity.
Qed.

Lemma np_array_route (coords : list (float64 * float64)) :
  coords <> [] ->
  np_array (route_json coords) = Ok (array_of coords).
Proof.
  intro H. unfold np_array.
  rewrite (discover_shape_route H), flatten_route. reflexivity.
Qed.

(** A route of coordinate pairs reaches the model, and what the [try]
    block computes from the predictions. *)
Lemma try_body_route (coords : list (float64 * float64)) (P : list Qc) :
  coords <> [] ->
  model_predict (array_of coords) = Ok P ->
  P <> [] ->
  try_body (route_json coords)
  = Ok (mean (where_ge P (Spec.percentile85 P) FACTOR)).
Proof.
  intros Hc Hm HP. unfold try_body.
  rewrite (np_array_route Hc). cbn [bind array_of ndim shape List.length nth].
  cbn [Nat.eqb negb orb]. rewrite Hm. cbn [bind].
  rewrite (percentile_spec HP). reflexivity.
Qed.

(** *** The loop *)

Lemma loop_body_scores (st : loop_state) (route : json) :
  scores (loop_body st route) = scores st ++ [route_score route].
Proof.
  unfold loop_body, route_score.
  destruct (try_body route); reflexivity.
Qed.

Lemma fold_loop_scores (routes : list json) (st : loop_state) :
  scores (fold_left loop_body routes st)
  = scores st ++ map route_score routes.
Proof.
  revert st. induction routes as [|r routes IH]; intro st; cbn [fold_left map].
  - now rewrite app_nil_r.
  - rewrite IH, loop_body_scores, <- app_assoc. reflexivity.
Qed.

Lemma score_loop_scores (routes : list json) :
  scores (score_loop routes) = map route_score routes.
Proof. unfold score_loop. now rewrite fold_loop_scores. Qed.

End ScorerFacts.

(** ** Which routes reach the model *)

Section Validation.

Context {env : Env}.

Lemma shape_eqb_eq (s1 s2 : list nat) : shape_eqb s1 s2 = true -> s1 = s2.
Proof. unfold shape_eqb. destruct (list_eq_dec _ s1 s2); congruence. Qed.

(** A list never has the empty shape. *)
Lemma shape_scalar (v : json) :
  discover_shape v = Ok [] -> is_scalar v = true.
Proof.
  destruct v as [| | | |items|]; try reflexivity.
  cbn [discover_shape]. destruct (map discover_shape items) as [|[s|e] rest];
    try discriminate.
  destruct (forallb _ rest); discriminate.
Qed.

(** The items of a list with a shape all have the shape of the rest. *)
Lemma shape_list (items : list json) (n : nat) (s : list nat) :
  discover_shape (JList items) = Ok (n :: s) ->
  items = [] /\ n = 0%nat /\ s = [] \/
  items <> [] /\ n = List.length items /\
  Forall (fun v => discover_shape v = Ok s) items.
Proof.
  cbn [discover_shape].
  destruct items as [|v items]; [intros [= <- <-]; now left|].
  cbn [map]. destruct (discover_shape v) as [s'|e] eqn:Ev; [|discriminate].
  match goal with |- context [forallb ?f ?l] =>
    destruct (forallb f l) eqn:Ef end; [|discriminate].
  intros [= <- <-]. right. split; [discriminate|]. split; [reflexivity|].
  constructor; [exact Ev|].
  rewrite forallb_forall in Ef. apply Forall_forall. intros w Hw.
  specialize (Ef (discover_shape w) (in_map _ _ _ Hw)).
  destruct (discover_shape w); [|discriminate].
  now rewrite (shape_eqb_eq _ _ Ef).
Qed.

Lemma mapM_app_ok (A B : Type) (f : A -> result B) (l1 l2 : list A)
  (bs : list B) :
  mapM f (l1 ++ l2) = Ok bs ->
  exists bs1 bs2, mapM f l1 = Ok bs1 /\ mapM f l2 = Ok bs2.
Proof.
  revert bs. induction l1 as [|a l1 IH]; intros bs H.
  - exists [], bs. split; [reflexivity|exact H].
  - cbn [app mapM bind] in H |- *. destruct (f a) as [b|e]; [|discriminate].
    cbn [bind] in H |- *.
    destruct (mapM f (l1 ++ l2)) as [bs'|e] eqn:E; [|discriminate].
    destruct (IH _ eq_refl) as [bs1 [bs2 [H1 H2]]].
    rewrite H1. cbn [bind]. eauto.
Qed.

(** A point of shape [(2,)] whose scalars convert is a point. *)
Lemma shape_point (p : json) (vs : list float64) :
  discover_shape p = Ok [2%nat] ->
  mapM to_float (flatten p) = Ok vs ->
  is_point p = true.
Proof.
  intros Hs Hv. destruct p as [| | | |items|]; try discriminate.
  apply shape_list in Hs as [[_ [? _]]|[_ [Hn Hall]]]; [discriminate|].
  destruct items as [|lat [|lon [|? ?]]]; try discriminate.
  inversion Hall as [|? ? Hlat Hall']; subst.
  inversion Hall' as [|? ? Hlon _]; subst.
  apply shape_scalar in Hlat, Hlon.
  cbn [is_point]. rewrite Hlat, Hlon. cbn [andb].
  cbn [flatten flat_map] in Hv.
  destruct lat; try discriminate; destruct lon; try discriminate;
    cbn [flatten app mapM bind] in Hv; unfold converts;
    repeat match type of Hv with
           | context [to_float ?v] => destruct (to_float v); try discriminate
           end; reflexivity.
Qed.

(** The routes that pass the conversion and the shape test are the
    convertible ones. *)
Lemma validated_convertible (route : json) (arr : ndarray) :
  np_array route = Ok arr ->
  (negb (ndim arr =? 2)%nat || negb (nth 1 (shape arr) 0 =? 2)%nat)%bool
  = false ->
  convertible route = true.
Proof.
  unfold np_array. intros Ha Hshape.
  destruct (discover_shape route) as [shp|e] eqn:Es; [|discriminate].
  cbn [bind] in Ha.
  destruct (mapM to_float (flatten route)) as [vs|e] eqn:Ev; [|discriminate].
  injection Ha as <-. unfold ndim in Hshape. cbn [shape] in Hshape.
  destruct shp as [|n [|c [|? ?]]]; try discriminate.
  cbn [nth List.length Nat.eqb negb orb] in Hshape.
  apply negb_false_iff, Nat.eqb_eq in Hshape. subst c.
  destruct route as [| | | |items|]; try discriminate.
  apply shape_list in Es as [[_ [_ ?]]|[Hne [_ Hall]]]; [discriminate|].
  destruct items as [|p ps]; [congruence|]. unfold convertible.
  apply forallb_forall. intros pt Hpt.
  rewrite Forall_forall in Hall. specialize (Hall pt Hpt).
  cbn [flatten] in Ev. apply in_split in Hpt as [l1 [l2 E]]. rewrite E in Ev.
  rewrite flat_map_app in Ev. cbn [flat_map] in Ev.
  apply mapM_app_ok in Ev as [_ [bs [_ Ev]]].
  apply mapM_app_ok in Ev as [bs1 [_ [Ev _]]].
  exact (shape_point _ Hall Ev).
Qed.

Lemma mapM_app (A B : Type) (f : A -> result B) (l1 l2 : list A)
  (bs1 bs2 : list B) :
  mapM f l1 = Ok bs1 -> mapM f l2 = Ok bs2 ->
  mapM f (l1 ++ l2) = Ok (bs1 ++ bs2).
Proof.
  revert bs1. induction l1 as [|a l1 IH]; intros bs1 H1 H2.
  - injection H1 as <-. exact H2.
  - cbn [app mapM bind] in H1 |- *. destruct (f a) as [b|e]; [|discriminate].
    cbn [bind] in H1 |- *.
    destruct (mapM f l1) as [bs|e] eqn:E; [|discriminate].
    injection H1 as <-. now rewrite (IH _ eq_refl H2).
Qed.

Lemma scalar_shape (v : json) :
  is_scalar v = true -> discover_shape v = Ok [] /\ flatten v = [v].
Proof. destruct v; try discriminate; intros _; split; reflexivity. Qed.

Lemma point_converts (p : json) :
  is_point p = true ->
  discover_shape p = Ok [2%nat] /\
  exists lat lon, mapM to_float (flatten p) = Ok [lat; lon].
Proof.
  destruct p as [| | | |[|a [|b [|? ?]]]|]; try discriminate.
  cbn [is_point]. rewrite !andb_true_iff. intros [[[Ha Hb] Hca] Hcb].
  apply scalar_shape in Ha as [Hsa Hfa], Hb as [Hsb Hfb].
  split.
  - cbn [discover_shape map]. rewrite Hsa, Hsb. reflexivity.
  - cbn [flatten flat_map]. rewrite Hfa, Hfb. cbn [app mapM bind].
    unfold converts in Hca, Hcb.
    destruct (to_float a) as [lat|]; [|discriminate].
    destruct (to_float b) as [lon|]; [|discriminate].
    cbn [bind]. eauto.
Qed.

Lemma points_convert (points : list json) :
  forallb is_point points = true ->
  Forall (fun p => discover_shape p = Ok [2%nat]) points /\
  exists vs, mapM to_float (flat_map flatten points) = Ok vs.
Proof.
  induction points as [|p points IH]; cbn [forallb flat_map].
  - intros _. split; [constructor|]. now exists [].
  - rewrite andb_true_iff. intros [Hp Hps].
    destruct (IH Hps) as [Hall [vs Hvs]].
    destruct (point_converts _ Hp) as [Hs [lat [lon Hv]]].
    split; [now constructor|].
    exists ([lat; lon] ++ vs). now apply mapM_app.
Qed.

(** A convertible route converts to a two-column array. *)
Lemma convertible_validated (route : json) :
  convertible route = true ->
  exists (n : nat) (vs : list float64),
    np_array route = Ok (mk_ndarray [n; 2%nat] vs).
Proof.
  destruct route as [| | | |[|p ps]|]; try discriminate.
  unfold convertible. intro Hc.
  destruct (points_convert _ Hc) as [Hall [vs Hvs]].
  exists (List.length (p :: ps)), vs. unfold np_array.
  cbn [flatten]. rewrite Hvs.
  replace (discover_shape (JList (p :: ps)))
    with (Ok (A := list nat) [List.length (p :: ps); 2%nat]);
    [reflexivity|].
  inversion Hall as [|? ? Hp Hps]; subst.
  cbn [discover_shape map]. rewrite Hp.
  match goal with |- context [forallb ?f ?l] =>
    replace (forallb f l) with true; [reflexivity|] end.
  symmetry. apply forallb_forall. intros r Hr.
  apply in_map_iff in Hr as [w [<- Hw]].
  rewrite Forall_forall in Hps. now rewrite (Hps w Hw).
Qed.

(** What keeps a route from being convertible: it is not a list, it is
    empty, or one of its items is not a pair of scalars that convert. *)
Lemma unconvertible_kinds (route : json) :
  convertible route = false <->
  match route with
  | JList [] => True
  | JList points => exists p, In p points /\ is_point p = false
  | _ => True
  end.
Proof.
  destruct route as [| | | |[|p ps]|]; try (split; [easy|reflexivity]).
  unfold convertible. split.
  - intro H. apply not_true_iff_false in H.
    rewrite forallb_forall in H.
    destruct (forallb is_point (p :: ps)) eqn:E.
    + exfalso. apply H. now apply forallb_forall.
    + clear H. induction (p :: ps) as [|x l IH]; [discriminate|].
      cbn [forallb] in E. apply andb_false_iff in E as [E|E].
      * exists x. split; [now left|exact E].
      * destruct (IH E) as [y [Hy Hp]]. exists y. split; [now right|exact Hp].
  - intros [pt [Hin Hpt]]. apply not_true_iff_false. intro H.
    rewrite forallb_forall in H. rewrite (H pt Hin) in Hpt. discriminate.
Qed.

(** A route that is not convertible raises inside the [try] block. *)
Lemma unconvertible_raises (route : json) :
  convertible route = false -> route_score route = PosInf.
Proof.
  intro Hc. unfold route_score, try_body.
  destruct (np_array route) as [arr|e] eqn:Ea; [|reflexivity].
  cbn [bind].
  destruct (negb (ndim arr =? 2)%nat || negb (nth 1 (shape arr) 0 =? 2)%nat)%bool
    eqn:Hs; [reflexivity|].
  rewrite (validated_convertible _ Ea Hs) in Hc. discriminate.
Qed.

Lemma score_loop_app (l1 l2 : list json) :
  scores (score_loop (l1 ++ l2))
  = scores (score_loop l1) ++ scores (score_loop l2).
Proof. rewrite !score_loop_scores. apply map_app. Qed.

End Validation.

(** ** The claims of the specification *)

Section Claims.

Context {env : Env}.

Local Open Scope Qc_scope.

Lemma route_score_route (coords : list (float64 * float64)) (P : list Qc) :
  coords <> [] ->
  model_predict (array_of coords) = Ok P ->
  P <> [] ->
  route_score (route_json coords)
  = Finite (mean (where_ge P (Spec.percentile85 P) FACTOR)).
Proof.
  intros Hc Hm HP. unfold route_score.
  now rewrite (try_body_route Hc Hm HP).
Qed.

Lemma same_length_nonempty (A B : Type) (l : list A) (l' : list B) :
  List.length l' = List.length l -> l <> [] -> l' <> [].
Proof. destruct l, l'; cbn; congruence. Qed.

Lemma percentile85_perm (P P' : list Qc) :
  Permutation P P' -> Spec.percentile85 P = Spec.percentile85 P'.
Proof.
  intro Hp. unfold Spec.percentile85.
  now rewrite (sort_permutation Hp), (Permutation_length Hp).
Qed.

Lemma mean_perm (l l' : list Qc) : Permutation l l' -> mean l = mean l'.
Proof.
  intro Hp. unfold mean.
  now rewrite (sum_perm Hp), (Permutation_length Hp).
Qed.

(** The view answers a non-empty list of routes with the scores of the
    loop. *)
Lemma score_route_scores (members : list (string * json))
  (r : json) (rs : list json) :
  lookup "routes" members = Some (JList (r :: rs)) ->
  score_route (JObj members)
  = Reply (ScoresBody (map route_score (r :: rs))) 200.
Proof.
  intro H. unfold score_route, get. rewrite H.
  destruct members as [|m members]; [discriminate|].
  cbn [truthy is_list List.length Nat.eqb negb orb].
  now rewrite score_loop_scores.
Qed.


(** C2.  For a batch of any size the loop leaves exactly one score per
    route, and the score at position [i] is the score of the route at
    position [i], whether that route scores or raises. *)
Theorem one_score_per_route (routes : list json) :
  List.length (scores (score_loop routes)) = List.length routes /\
  forall i : nat,
    nth_error (scores (score_loop routes)) i
    = option_map route_score (nth_error routes i).
Proof.
  rewrite score_loop_scores. split.
  - apply length_map.
  - intro i. apply nth_error_map.
Qed.

(** C3, amended.  A route that is not convertible (empty, ragged, with a
    point that is not a pair, or with a value that does not convert to a
    float) is scored [float("inf")] wherever it stands in the batch, and
    the scores of the routes before and after it are the ones they get
    in the batch without it. *)
Theorem unconvertible_route_unsafe (before after : list json) (bad : json) :
  convertible bad = false ->
  scores (score_loop (before ++ bad :: after))
  = scores (score_loop before) ++ PosInf :: scores (score_loop after)
  /\ scores (score_loop (before ++ after))
     = scores (score_loop before) ++ scores (score_loop after).
Proof.
  intro Hbad. split; [|apply score_loop_app].
  rewrite score_loop_app. f_equal.
  rewrite !score_loop_scores. cbn [map].
  now rewrite (unconvertible_raises _ Hbad).
Qed.



(** C6.  A five-point route for which the model predicts
    [[1, 1, 1, 1, 10]] is scored 4. *)
Theorem scenario_score (coords : list (float64 * float64)) :
  List.length coords = 5%nat ->
  model_predict (array_of coords)
  = Ok [of_Z 1; of_Z 1; of_Z 1; of_Z 1; of_Z 10] ->
  route_score (route_json coords) = Finite (of_Z 4).
Proof.
  intros Hl Hm.
  assert (coords <> []) as Hc by (destruct coords; [discriminate|congruence]).
  rewrite (route_score_route Hc Hm) by discriminate.
  f_equal. apply Qc_is_canon. vm_compute. reflexivity.
Qed.

End Claims.

Section Scenario.

Local Open Scope Qc_scope.

(** C7, amended.  The 85th percentile of [[1, 1, 1, 1, 10]] as the
    scoring step computes it is 4.6: the virtual index is
    [0.85 * 4 = 3.4], between the ranks holding 1 and 10. *)
Theorem percentile_of_scenario :
  percentile [of_Z 1; of_Z 1; of_Z 1; of_Z 1; of_Z 10] PERCENTILE
  = Ok (Q2Qc 4.6).
Proof.
  vm_compute. f_equal. apply Qc_is_canon. reflexivity.
Qed.

End Scenario.

Section MoreClaims.

Context {env : Env}.

Local Open Scope Qc_scope.


(** C9.  A request object whose member [routes] is the empty list is
    answered with status 400 and the error of a missing list; no score
    list is returned. *)
Theorem empty_batch_rejected (members : list (string * json)) :
  lookup "routes" members = Some (JList []) ->
  score_route (JObj members)
  = Reply (ErrorBody "Missing 'routes' list") 400.
Proof.
  intro H. unfold score_route, get. rewrite H.
  destruct members as [|m members]; [discriminate|reflexivity].
Qed.


End MoreClaims.

(** ** The claims at concrete requests *)

Section Witnesses.

Import Samples.
Local Open Scope Qc_scope.

Lemma pointwise_model_array (f : float64 * float64 -> Qc)
  (cs : list (float64 * float64)) :
  pointwise_model f (array_of cs) = Ok (map f cs).
Proof.
  unfold pointwise_model, array_of. cbn [data]. f_equal. f_equal.
  induction cs as [|[lat lon] cs IH]; [reflexivity|].
  cbn [flat_map app fst snd rows]. now rewrite IH.
Qed.


Lemma numeric_strings_scored :
  Spec.malformed (JList [JList [JStr "28"; JStr "77"]]) = true /\
  scores (score_loop (env := latitude_env)
                     [JList [JList [JStr "28"; JStr "77"]]])
  = [Finite (Q2Qc 44.8)].
Proof.
  split; [reflexivity|].
  vm_compute. do 2 f_equal. apply Qc_is_canon. reflexivity.
Qed.

Lemma unconvertible_route_unsafe_witness :
  scores (score_loop (env := latitude_env)
            ([route_json [at_ 1 2; at_ 3 4]] ++ JList [] ::
             [route_json [at_ 5 6]]))
  = scores (score_loop (env := latitude_env) [route_json [at_ 1 2; at_ 3 4]])
    ++ PosInf ::
    scores (score_loop (env := latitude_env) [route_json [at_ 5 6]])
  /\ scores (score_loop (env := latitude_env)
               ([route_json [at_ 1 2; at_ 3 4]] ++ [route_json [at_ 5 6]]))
     = scores (score_loop (env := latitude_env)
                 [route_json [at_ 1 2; at_ 3 4]])
       ++ scores (score_loop (env := latitude_env) [route_json [at_ 5 6]]).
Proof.
  apply (@unconvertible_route_unsafe latitude_env). reflexivity.
Defined.



Lemma empty_batch_rejected_witness :
  score_route (env := latitude_env) (JObj [("routes"%string, JList [])])
  = Reply (ErrorBody "Missing 'routes' list") 400.
Proof.
  apply (@empty_batch_rejected latitude_env). reflexivity.
Defined.




Lemma scenario_score_witness :
  route_score (env := fixed_env [q 1; q 1; q 1; q 1; q 10])
              (route_json [at_ 1 2; at_ 3 4; at_ 5 6; at_ 7 8; at_ 9 10])
  = Finite (of_Z 4).
Proof.
  apply (@scenario_score (fixed_env [q 1; q 1; q 1; q 1; q 10]));
    reflexivity.
Defined.

Lemma scenario_p85_differs_from_7 :
  percentile [of_Z 1; of_Z 1; of_Z 1; of_Z 1; of_Z 10] PERCENTILE
  <> Ok (of_Z 7).
Proof.
  intro H.
  apply (f_equal (fun r => match r with
                           | Ok x => Qnum (this x)
                           | Raise _ => 0%Z
                           end)) in H.
  vm_compute in H. discriminate.
Qed.

End Witnesses.

(** * Further properties of the view, the loop and the training script *)

(** ** The replies of the view *)

Section ViewFacts.

Context {env : Env}.

(** X1.  The view replies with scores exactly to an object whose member
    [routes] is a non-empty list; the status is 200 and the scores are
    those of the routes, in order. *)
Theorem view_scores_iff (data : json) (l : list score) (status : nat) :
  score_route data = Reply (ScoresBody l) status <->
  status = 200%nat /\
  exists members r rs,
    data = JObj members /\
    lookup "routes" members = Some (JList (r :: rs)) /\
    l = map route_score (r :: rs).
Proof.
  split.
  - unfold score_route. destruct (truthy data) eqn:Ht; [|discriminate].
    cbn [negb]. destruct data as [| | | | |members]; try discriminate.
    cbn [get]. destruct (lookup "routes" members) as [v|] eqn:Hl;
      [|discriminate].
    destruct v as [| | | |[|r rs]|]; try discriminate;
      try (destruct (negb (truthy _) || _)%bool; discriminate).
    cbn [truthy is_list List.length Nat.eqb negb orb].
    intros [= <- <-]. split; [reflexivity|].
    exists members, r, rs. now rewrite score_loop_scores.
  - intros [-> [members [r [rs [-> [Hl ->]]]]]].
    now apply score_route_scores.
Qed.

(** X2.  An exception leaves the view exactly when the body is truthy
    and is not an object: it is the [AttributeError] of [data.get]. *)
Theorem view_unhandled_iff (data : json) (e : exn) :
  score_route data = Unhandled e <->
  e = AttributeError /\ truthy data = true /\
  forall members, data <> JObj members.
Proof.
  split.
  - unfold score_route. destruct (truthy data) eqn:Ht; [|discriminate].
    cbn [negb]. destruct data as [| | | | |members]; cbn [get];
      try (intros [= <-]; split; [reflexivity|];
           split; [reflexivity|intros m; discriminate]).
    destruct (lookup "routes" members) as [v|]; [|discriminate].
    destruct (negb (truthy v) || negb (is_list v))%bool; [discriminate|].
    destruct v; discriminate.
  - intros [-> [Ht Hobj]]. unfold score_route. rewrite Ht. cbn [negb].
    destruct data; try reflexivity. now destruct (Hobj members).
Qed.

(** X3.  The view answers 400 "Invalid JSON" exactly when the body is
    falsy: [None], [false], zero, or an empty string, list or object. *)
Theorem view_invalid_json_iff (data : json) :
  score_route data = Reply (ErrorBody "Invalid JSON") 400 <->
  truthy data = false.
Proof.
  split.
  - unfold score_route. destruct (truthy data); [|reflexivity].
    cbn [negb]. destruct (get data "routes") as [routes|]; [|discriminate].
    destruct (negb (truthy routes) || negb (is_list routes))%bool;
      [discriminate|].
    destruct routes; discriminate.
  - intro Ht. unfold score_route. now rewrite Ht.
Qed.

(** X4.  The view answers 400 "Missing 'routes' list" exactly to a
    non-empty object whose member [routes] is absent, falsy or not a
    list. *)
Theorem view_missing_routes_iff (data : json) :
  score_route data = Reply (ErrorBody "Missing 'routes' list") 400 <->
  exists members,
    data = JObj members /\ members <> [] /\
    forall r rs, lookup "routes" members <> Some (JList (r :: rs)).
Proof.
  split.
  - unfold score_route. destruct (truthy data) eqn:Ht; [|discriminate].
    cbn [negb]. destruct data as [| | | | |members]; try discriminate.
    intro H. exists members. split; [reflexivity|].
    split; [now destruct members|].
    intros r rs Hl. cbn [get] in H. rewrite Hl in H. discriminate.
  - intros [members [-> [Hne Hl]]]. unfold score_route.
    destruct members as [|m members]; [congruence|].
    cbn [truthy List.length Nat.eqb negb get].
    destruct (lookup "routes" (m :: members)) as [v|]; [|reflexivity].
    destruct v as [| | | |[|r rs]|]; try reflexivity;
      try (now destruct (negb (truthy _) || _)%bool).
    now destruct (Hl r rs).
Qed.

End ViewFacts.

(** ** The loop, the log and the call of the model *)

Section LoopFacts.

Context {env : Env}.

(** The exception one iteration prints for [route], if any. *)
Lemma loop_body_printed (st : loop_state) (route : json) :
  printed (loop_body st route)
  = printed st ++ match try_body route with
                  | Ok _ => []
                  | Raise e => [e]
                  end.
Proof.
  unfold loop_body. destruct (try_body route); cbn [printed];
    [now rewrite app_nil_r|reflexivity].
Qed.

Lemma fold_loop_app (l1 l2 : list json) (st : loop_state) :
  fold_left loop_body (l1 ++ l2) st
  = fold_left loop_body l2 (fold_left loop_body l1 st).
Proof. apply fold_left_app. Qed.

Lemma fold_loop_state (routes : list json) (st : loop_state) :
  fold_left loop_body routes st
  = mk_state (scores st ++ scores (score_loop routes))
             (printed st ++ printed (score_loop routes)).
Proof.
  unfold score_loop. revert st.
  induction routes as [|r routes IH] using rev_ind; intro st.
  - cbn. destruct st. now rewrite !app_nil_r.
  - rewrite !fold_left_app. cbn [fold_left].
    rewrite (IH st). set (s0 := fold_left loop_body routes (mk_state [] [])).
    unfold loop_body. destruct (try_body r); cbn [scores printed];
      rewrite <- ?app_assoc; reflexivity.
Qed.

(** X5.  Scoring a batch gives the scores and the printed exceptions
    of its first part followed by those of the rest. *)
Theorem score_loop_split (l1 l2 : list json) :
  score_loop (l1 ++ l2)
  = mk_state (scores (score_loop l1) ++ scores (score_loop l2))
             (printed (score_loop l1) ++ printed (score_loop l2)).
Proof.
  unfold score_loop at 1. rewrite fold_left_app.
  apply (fold_loop_state l2).
Qed.

Lemma score_loop_snoc (routes : list json) (r : json) :
  score_loop (routes ++ [r]) = loop_body (score_loop routes) r.
Proof. unfold score_loop. now rewrite fold_left_app. Qed.


Lemma mapM_length (A B : Type) (f : A -> result B) (l : list A)
  (bs : list B) :
  mapM f l = Ok bs -> List.length bs = List.length l.
Proof.
  revert bs. induction l as [|a l IH]; intros bs H.
  - now injection H as <-.
  - cbn [mapM bind] in H. destruct (f a); [|discriminate]. cbn [bind] in H.
    destruct (mapM f l) as [bs'|] eqn:E; [|discriminate].
    injection H as <-. cbn [List.length]. f_equal. now apply IH.
Qed.

Lemma point_flatten (p : json) :
  is_point p = true -> List.length (flatten p) = 2%nat.
Proof.
  destruct p as [| | | |[|a [|b [|? ?]]]|]; try discriminate.
  cbn [is_point]. rewrite !andb_true_iff. intros [[[Ha Hb] _] _].
  destruct a; try discriminate; destruct b; try discriminate; reflexivity.
Qed.

Lemma points_flatten (points : list json) :
  forallb is_point points = true ->
  List.length (flat_map flatten points) = (2 * List.length points)%nat.
Proof.
  induction points as [|p points IH]; [reflexivity|].
  cbn [forallb flat_map List.length]. rewrite andb_true_iff. intros [Hp Hps].
  rewrite length_app, (point_flatten _ Hp), (IH Hps). lia.
Qed.

(** The array of a convertible route. *)
Lemma convertible_array (route : json) (arr : ndarray) :
  convertible route = true -> np_array route = Ok arr ->
  exists n : nat,
    shape arr = [S n; 2%nat] /\ List.length (data arr) = (2 * S n)%nat.
Proof.
  intros Hc Ha.
  destruct (convertible_validated _ Hc) as [n [vs Hn]].
  rewrite Hn in Ha. injection Ha as <-. cbn [shape data].
  destruct route as [| | | |[|p ps]|]; try discriminate.
  unfold convertible in Hc. unfold np_array in Hn.
  destruct (discover_shape (JList (p :: ps))) as [shp|] eqn:Es;
    [|discriminate].
  cbn [bind] in Hn.
  destruct (mapM to_float (flatten (JList (p :: ps)))) as [vs'|] eqn:Ev;
    [|discriminate].
  injection Hn as -> ->.
  apply shape_list in Es as [[? _]|[_ [-> _]]]; [discriminate|].
  exists (List.length ps). split; [reflexivity|].
  rewrite (mapM_length _ _ Ev). cbn [flatten].
  now rewrite (points_flatten _ Hc).
Qed.

(** X9.  The model is only called with an array of shape [(N, 2)],
    [N >= 1], holding [2 * N] values. *)
Theorem model_input_shape (route : json) (arr : ndarray) :
  np_array route = Ok arr ->
  (negb (ndim arr =? 2)%nat || negb (nth 1 (shape arr) 0 =? 2)%nat)%bool
  = false ->
  exists n : nat,
    shape arr = [S n; 2%nat] /\ List.length (data arr) = (2 * S n)%nat.
Proof.
  intros Ha Hs.
  exact (convertible_array _ (validated_convertible _ Ha Hs) Ha).
Qed.

Lemma convertible_passes (route : json) (arr : ndarray) :
  convertible route = true -> np_array route = Ok arr ->
  (negb (ndim arr =? 2)%nat || negb (nth 1 (shape arr) 0 =? 2)%nat)%bool
  = false.
Proof.
  intros Hc Ha. destruct (convertible_array _ Hc Ha) as [n [Hs _]].
  unfold ndim. now rewrite Hs.
Qed.

(** X8.  When the model raises on the array of a convertible route,
    the iteration appends [float("inf")] and prints that exception. *)
Theorem model_failure_is_unsafe
  (st : loop_state) (route : json) (arr : ndarray) (e : exn) :
  convertible route = true ->
  np_array route = Ok arr ->
  model_predict arr = Raise e ->
  loop_body st route = mk_state (scores st ++ [PosInf]) (printed st ++ [e]).
Proof.
  intros Hc Ha Hm. unfold loop_body, try_body. rewrite Ha. cbn [bind].
  rewrite (convertible_passes _ Hc Ha), Hm. reflexivity.
Qed.


End LoopFacts.

(** ** The percentile and the largest prediction *)

Section PercentileBounds.

Local Open Scope Qc_scope.

Lemma sorted_nth (l : list Qc) (i j : nat) :
  StronglySorted Qcle l -> (i <= j)%nat -> (j < List.length l)%nat ->
  nth i l 0 <= nth j l 0.
Proof.
  intro Hs. revert i j. induction Hs as [|x l Hs IH Hx]; intros i j Hij Hj.
  - cbn in Hj. lia.
  - destruct j as [|j].
    + replace i with 0%nat by lia. apply Qcle_refl.
    + cbn [List.length] in Hj. destruct i as [|i].
      * cbn [nth]. rewrite Forall_forall in Hx. apply Hx, nth_In. lia.
      * cbn [nth]. apply IH; lia.
Qed.

(** The fractional part of the virtual index. *)
Lemma gamma_range (x : Qc) :
  0 <= x - of_Z (Qfloor x) /\ x - of_Z (Qfloor x) <= 1.
Proof.
  pose proof (Qfloor_le x) as H1. pose proof (Qlt_floor x) as H2.
  rewrite inject_Z_plus in H2.
  unfold Qcle. qc_to_q. change (Qred 0) with 0%Q.
  change (this 1) with 1%Q. change (inject_Z 1) with 1%Q in H2.
  split; lra.
Qed.

Lemma interpolation_between (a b g : Qc) :
  a <= b -> 0 <= g -> g <= 1 -> a <= a + g * (b - a) /\ a + g * (b - a) <= b.
Proof.
  unfold Qcle. qc_to_q. change (Qred 0) with 0%Q. change (this 1) with 1%Q.
  intros. split; nra.
Qed.

(** The interpolated percentile lies between two order statistics. *)
Lemma percentile85_between (P : list Qc) :
  P <> [] ->
  exists lower upper,
    In lower P /\ In upper P /\
    lower <= Spec.percentile85 P /\ Spec.percentile85 P <= upper.
Proof.
  destruct P as [|x P']; [congruence|intros _].
  unfold Spec.percentile85. rewrite <- quantile_85.
  change ((of_nat (List.length (x :: P')) - 1) * (PERCENTILE / of_Z 100))
    with (get_virtual_index (S (List.length P')) (PERCENTILE / of_Z 100)).
  set (m := List.length P').
  set (h := get_virtual_index (S m) (PERCENTILE / of_Z 100)).
  set (s := sort (x :: P')).
  assert (List.length s = S m) as Hs by (unfold s; apply sort_length).
  pose proof (floor_range m) as Hf. pose proof (ceiling_range m) as Hc.
  unfold floor in Hf. fold h in Hf, Hc.
  assert (Qfloor h <= Qceiling h)%Z as Hfc.
  { pose proof (Qle_floor_ceiling h) as H. now rewrite <- Zle_Qle in H. }
  exists (nth (Z.to_nat (Qfloor h)) s 0), (nth (Z.to_nat (Qceiling h)) s 0).
  assert (forall i, (i < S m)%nat -> In (nth i s 0) (x :: P')) as Hin.
  { intros i Hi. eapply Permutation_in;
      [apply Permutation_sym, sort_perm|]. apply nth_In. fold s. lia. }
  split; [apply Hin; lia|]. split; [apply Hin; lia|].
  destruct (gamma_range h) as [Hg0 Hg1].
  apply interpolation_between; try assumption.
  apply sorted_nth; [apply sort_sorted|lia|lia].
Qed.


(** A largest element of a non-empty list. *)
Lemma maximum_exists (P : list Qc) :
  P <> [] -> exists x, In x P /\ forall y, In y P -> y <= x.
Proof.
  induction P as [|a P IH]; [congruence|intros _].
  destruct P as [|b P].
  - exists a. split; [now left|]. intros y [<-|[]]. apply Qcle_refl.
  - destruct IH as [x [Hx Hmax]]; [discriminate|].
    destruct (leb a x) eqn:E.
    + apply leb_le in E. exists x. split; [now right|].
      intros y [<-|Hy]; [exact E|now apply Hmax].
    + apply leb_total, leb_le in E. exists a. split; [now left|].
      intros y [<-|Hy]; [apply Qcle_refl|].
      apply Qcle_trans with x; [now apply Hmax|exact E].
Qed.

(** Pointwise larger, and strictly at one place, is strictly larger in
    sum. *)
Lemma sum_map_lt (f : Qc -> Qc) (P : list Qc) (x : Qc) :
  (forall y, In y P -> y <= f y) -> In x P -> x < f x ->
  sum P < sum (map f P).
Proof.
  induction P as [|a P IH]; intros Hle Hin Hlt; [destruct Hin|].
  cbn [map]. rewrite !sum_cons.
  assert (sum P <= sum (map f P)) as Hsum.
  { clear IH Hin. induction P as [|b P IHP]; [apply Qcle_refl|].
    cbn [map]. rewrite !sum_cons. apply Qcplus_le_compat.
    - apply Hle. right. now left.
    - apply IHP. intros y [<-|Hy]; apply Hle; [now left|right; now right]. }
  destruct Hin as [<-|Hin].
  - unfold Qclt, Qcle in *. revert Hlt Hsum. qc_to_q. intros. lra.
  - assert (sum P < sum (map f P)) as Hs
      by (apply IH; auto; intros y Hy; apply Hle; now right).
    assert (a <= f a) as Ha by (apply Hle; now left).
    unfold Qclt, Qcle in *. revert Hs Ha. qc_to_q. intros. lra.
Qed.

End PercentileBounds.

Section Strict.

Context {env : Env}.

Local Open Scope Qc_scope.



End Strict.

(** ** Predictions in another unit *)

Section Scaling.

Local Open Scope Qc_scope.

Variable c : Qc.
Hypothesis c_pos : 0 < c.

Lemma leb_scale (x y : Qc) : leb (c * x) (c * y) = leb x y.
Proof.
  destruct (leb x y) eqn:E.
  - apply leb_le in E. apply leb_le.
    rewrite (Qcmult_comm c x), (Qcmult_comm c y).
    apply Qcmult_le_compat_r; [exact E|now apply Qclt_le_weak].
  - apply leb_gt in E. apply leb_gt.
    rewrite (Qcmult_comm c x), (Qcmult_comm c y).
    now apply Qcmult_lt_compat_r.
Qed.

Lemma insert_scale (x : Qc) (l : list Qc) :
  insert (c * x) (map (Qcmult c) l) = map (Qcmult c) (insert x l).
Proof.
  induction l as [|y l IH]; [reflexivity|].
  cbn [map insert]. rewrite leb_scale.
  destruct (leb x y); cbn [map]; [reflexivity|now rewrite IH].
Qed.

Lemma sort_scale (l : list Qc) :
  sort (map (Qcmult c) l) = map (Qcmult c) (sort l).
Proof.
  induction l as [|x l IH]; [reflexivity|].
  cbn [map sort]. now rewrite IH, insert_scale.
Qed.

Lemma nth_scale (i : nat) (l : list Qc) :
  nth i (map (Qcmult c) l) 0 = c * nth i l 0.
Proof.
  replace 0 with (c * 0) at 1 by ring. apply map_nth.
Qed.

Lemma percentile85_scale (P : list Qc) :
  Spec.percentile85 (map (Qcmult c) P) = c * Spec.percentile85 P.
Proof.
  unfold Spec.percentile85.
  rewrite sort_scale, length_map, !nth_scale. ring.
Qed.

Lemma where_ge_scale (P : list Qc) (p f : Qc) :
  where_ge (map (Qcmult c) P) (c * p) f = map (Qcmult c) (where_ge P p f).
Proof.
  unfold where_ge. rewrite !map_map. apply map_ext. intro x.
  rewrite leb_scale. destruct (leb p x); ring.
Qed.

Lemma sum_scale (l : list Qc) : sum (map (Qcmult c) l) = c * sum l.
Proof.
  induction l as [|x l IH]; cbn [map]; rewrite ?sum_cons, ?sum_nil;
    [ring|rewrite IH; ring].
Qed.

Lemma mean_scale (l : list Qc) :
  l <> [] -> mean (map (Qcmult c) l) = c * mean l.
Proof.
  intro Hl. unfold mean. rewrite sum_scale, length_map.
  destruct l as [|x l]; [congruence|]. cbn [List.length].
  field. apply of_nat_neq_0.
Qed.

End Scaling.


(** ** The training set *)

Section TrainFacts.

Import Train.

Local Open Scope Qc_scope.

(** The crime columns of a frame. *)
Local Abbreviation crime_cols df :=
  (filter (fun c => isin (lower c) CRIME_NAMES) (columns df)).

Lemma filter_map_swap (A B : Type) (f : A -> B) (p : B -> bool)
  (l : list A) :
  filter p (map f l) = map f (filter (fun a => p (f a)) l).
Proof.
  induction l as [|a l IH]; [reflexivity|].
  cbn [map filter]. destruct (p (f a)); cbn [map]; now rewrite IH.
Qed.


(** X15.  The arrays given to [pipeline.fit] have the same number of
    rows and no missing value. *)
Theorem training_set_complete (csv : option frame)
  (X : list (cell * cell)) (y : list cell) :
  main csv = Done (X, y) ->
  List.length X = List.length y /\
  Forall (fun xy => fst xy <> None /\ snd xy <> None) X /\
  Forall (fun v => v <> None) y.
Proof.
  destruct csv as [df|]; [|discriminate]. unfold main.
  destruct (isin "lat" (columns df)); [|discriminate].
  destruct (isin "long" (columns df)); [|discriminate]. cbn [negb].
  set (wt := if isin "totalcrime" (columns df) then _ else _).
  destruct wt as [df1|]; [|discriminate].
  intros [= <- <-]. rewrite !length_map. split; [reflexivity|].
  split; apply Forall_forall; intros v Hv;
    apply in_map_iff in Hv as [r [<- Hr]];
    apply filter_In in Hr as [_ Hr]; cbn [notna forallb] in Hr;
    rewrite !andb_true_iff in Hr; destruct Hr as [H1 [H2 [H3 _]]];
    cbn [fst snd].
  - destruct (r "lat"%string), (r "long"%string); try discriminate.
    split; discriminate.
  - destruct (r "totalcrime"%string); [discriminate|discriminate].
Qed.


(** X17.  With a [totalcrime] column the training set depends only on
    the columns [lat], [long] and [totalcrime]. *)
Theorem given_target_only (df df' : frame) :
  isin "lat" (columns df) = true -> isin "lat" (columns df') = true ->
  isin "long" (columns df) = true -> isin "long" (columns df') = true ->
  isin "totalcrime" (columns df) = true ->
  isin "totalcrime" (columns df') = true ->
  Forall2 (fun r r' : row =>
             r "lat"%string = r' "lat"%string /\
             r "long"%string = r' "long"%string /\
             r "totalcrime"%string = r' "totalcrime"%string)
          (rows df) (rows df') ->
  main (Some df) = main (Some df').
Proof.
  intros Hlat Hlat' Hlong Hlong' Ht Ht' Hrows. unfold main.
  rewrite Hlat, Hlat', Hlong, Hlong', Ht, Ht'. cbn [negb dropna rows].
  induction Hrows as [|r r' l l' [H1 [H2 H3]] _ IH]; [reflexivity|].
  cbn [filter notna forallb]. rewrite <- H1, <- H2, <- H3.
  cbn [notna forallb] in IH.
  destruct (r "lat"%string) eqn:E1, (r "long"%string) eqn:E2,
    (r "totalcrime"%string) eqn:E3;
    cbn [andb map]; rewrite ?E1, ?E2, ?E3; try exact IH.
  injection IH as IH1 IH2. now rewrite <- H1, <- H2, <- H3, IH1, IH2.
Qed.

(** X18.  The [KeyError] for a missing column names [lat] when [lat] is
    missing, and [long] only when [lat] is there and [long] is missing;
    it lists the columns found. *)
Theorem missing_column_iff (df : frame) (c : string) (found : list string) :
  main (Some df) = Stopped (KeyError_column c found) <->
  found = columns df /\
  (c = "lat"%string /\ isin "lat" (columns df) = false \/
   c = "long"%string /\ isin "lat" (columns df) = true /\
   isin "long" (columns df) = false).
Proof.
  unfold main.
  destruct (isin "lat" (columns df)); cbn [negb].
  - destruct (isin "long" (columns df)); cbn [negb].
    + split.
      * destruct (isin "totalcrime" (columns df)); [discriminate|].
        destruct (crime_cols df); discriminate.
      * intros [_ [[_ H]|[_ [_ H]]]]; discriminate.
    + split.
      * intros [= <- <-]. split; [reflexivity|]. right. auto.
      * intros [-> [[_ H]|[-> _]]]; [discriminate|reflexivity].
  - split.
    + intros [= <- <-]. split; [reflexivity|]. left. auto.
    + intros [-> [[-> _]|[_ [H _]]]]; [reflexivity|discriminate].
Qed.

End TrainFacts.

(** ** The further properties at concrete inputs *)

Section MoreWitnesses.

Import Samples MoreSamples.

Local Open Scope Qc_scope.

Lemma model_failure_is_unsafe_witness :
  loop_body (env := failing_env) (mk_state [Finite (q 1)] [])
            (route_json [at_ 1 2])
  = mk_state ([Finite (q 1)] ++ [PosInf]) ([] ++ [ModelError]).
Proof.
  apply (@model_failure_is_unsafe failing_env (mk_state [Finite (q 1)] [])
           (route_json [at_ 1 2]) (array_of [at_ 1 2]) ModelError);
    reflexivity.
Defined.

Lemma model_input_shape_witness :
  exists n : nat,
    shape (array_of [at_ 1 2; at_ 3 4]) = [S n; 2%nat] /\
    List.length (data (array_of [at_ 1 2; at_ 3 4])) = (2 * S n)%nat.
Proof.
  apply (@model_input_shape latitude_env (route_json [at_ 1 2; at_ 3 4]));
    reflexivity.
Defined.

(** The percentile of the predictions [[1, 3]]. *)
Local Abbreviation p85_of_1_3 :=
  (match percentile [q 1; q 3] PERCENTILE with
   | Ok p => p
   | Raise _ => 0
   end).





Lemma training_set_complete_witness :
  List.length [(num 1, num 2)] = List.length [num 7] /\
  Forall (fun xy : Train.cell * Train.cell =>
            fst xy <> None /\ snd xy <> None) [(num 1, num 2)] /\
  Forall (fun v : Train.cell => v <> None) [num 7].
Proof.
  apply (@training_set_complete (Some with_total)). reflexivity.
Defined.


Lemma given_target_only_witness :
  Train.main (Some with_total) = Train.main (Some with_total').
Proof.
  apply (@given_target_only with_total with_total'); try reflexivity.
  repeat constructor.
Defined.

End MoreWitnesses.
